(** * Habit Tracker Pro: the click greeter of [script.js]

    The executable part of the repository is one script.  It registers a
    [DOMContentLoaded] listener on the document; when that listener runs it
    logs a startup notice, looks up the elements with ids [mainButton] and
    [output], and, if both exist, attaches a [click] listener to the button
    that overwrites the [innerHTML] of the output element with a greeting
    and the current time of day.

    The development embeds the script over a small model of the host page:
    a store of element nodes addressed by reference, the document as the
    list of attached nodes in tree order, listener lists per event target,
    the console, and an error channel for the [TypeError] that a property
    access on [null] raises. *)

From Stdlib Require Import ZArith String Ascii List Bool Lia.
From stdpp Require Import base option list gmap strings fin_maps.

Local Open Scope Z_scope.

(** ** Strings *)

Module Str.

(** [String.prototype.includes]: does [needle] occur in [hay]? *)
Fixpoint includes (needle hay : string) : bool :=
  String.prefix needle hay ||
  match hay with
  | EmptyString => false
  | String _ rest => includes needle rest
  end.

(** The propositional reading of [includes]. *)
Definition contains (hay needle : string) : Prop :=
  ∃ pre post, hay = pre +:+ needle +:+ post.

End Str.

(** ** The host's clock and time formatter *)

Module Clock.

(** A [Date] is a number of milliseconds; the model reads it as local wall
    clock time, so that [0] is a local midnight. *)
Definition msPerSecond : Z := 1000.
Definition secondsPerDay : Z := 86400.
Definition msPerDay : Z := msPerSecond * secondsPerDay.

Definition secondOfDay (t : Z) : Z := (t / msPerSecond) mod secondsPerDay.

(** A wall-clock reading [h:m:s] on day [d]. *)
Definition at_time (d h m s : Z) : Z :=
  (d * secondsPerDay + h * 3600 + m * 60 + s) * msPerSecond.

Definition digit (d : Z) : ascii := ascii_of_N (48 + Z.to_N d).

Definition twoDigit (n : Z) : string :=
  String (digit (n / 10)) (String (digit (n mod 10)) EmptyString).

Definition numeric (n : Z) : string :=
  if n <? 10 then String (digit n) EmptyString else twoDigit n.

Definition hour12 (h : Z) : Z := if h mod 12 =? 0 then 12 else h mod 12.

Definition dayPeriod (h : Z) : string := if h <? 12 then "AM" else "PM".

Definition format_hms (s : Z) : string :=
  let h := s / 3600 in
  let m := (s / 60) mod 60 in
  let sec := s mod 60 in
  numeric (hour12 h) +:+ ":" +:+ twoDigit m +:+ ":" +:+ twoDigit sec
    +:+ " " +:+ dayPeriod h.

(** Modelled from the spec: [Date.prototype.toLocaleTimeString] is the
    host's, not the repository's; its output is implementation-defined.
    This is the time-of-day format of the spec's two examples, "3:45:12 PM"
    and 14:30:00 shown as "2:30:00 PM": twelve-hour clock, unpadded hour,
    two-digit minute and second, day period.  The script itself is embedded
    over an arbitrary formatter; this one instantiates it on concrete
    inputs. *)
Definition toLocaleTimeString_enUS (t : Z) : string :=
  format_hms (secondOfDay t).

(** Reading a two-digit field, an unpadded hour and a day period back. *)
Definition digit_val (c : ascii) : option Z :=
  let n := Z.of_N (N_of_ascii c) in
  if (48 <=? n) && (n <=? 57) then Some (n - 48) else None.

Definition hour24 (h12 : Z) (pm : bool) : Z :=
  (if h12 =? 12 then 0 else h12) + (if pm then 12 else 0).

Definition parse_tail (h12 : Z) (s : string) : option Z :=
  match s with
  | String ":" (String m1 (String m2 (String ":" (String s1 (String s2
      (String " " (String p (String "M" EmptyString)))))))) =>
      match digit_val m1, digit_val m2, digit_val s1, digit_val s2 with
      | Some a, Some b, Some c, Some d =>
          let pm := Ascii.eqb p "P" in
          Some (hour24 h12 pm * 3600 + (a * 10 + b) * 60 + (c * 10 + d))
      | _, _, _, _ => None
      end
  | _ => None
  end.

(** [parse_hms] recovers the second of the day from a formatted time. *)
Definition parse_hms (s : string) : option Z :=
  match s with
  | String h1 (String ":" _ as rest) =>
      match digit_val h1 with
      | Some a => parse_tail a rest
      | None => None
      end
  | String h1 (String h2 rest) =>
      match digit_val h1, digit_val h2 with
      | Some a, Some b => parse_tail (a * 10 + b) rest
      | _, _ => None
      end
  | _ => None
  end.

(** [f] holds at [start], [start + 1], ..., [fuel] values in all. *)
Fixpoint all_from (f : Z → bool) (start : Z) (fuel : nat) : bool :=
  match fuel with
  | O => true
  | S k => f start && all_from f (start + 1) k
  end.

Definition reads_back (s : Z) : bool :=
  match parse_hms (format_hms s) with
  | Some x => x =? s
  | None => false
  end.

(** A time format has second-level resolution when two readings in
    different seconds of the day are shown differently. *)
Definition second_resolution (fmt : Z → string) : Prop :=
  ∀ t1 t2, secondOfDay t1 ≠ secondOfDay t2 → fmt t1 ≠ fmt t2.

End Clock.

(** ** The host page

    What the script touches of the DOM.  The document tree is kept as the
    list of attached nodes in tree order, which is what [getElementById]
    searches; an event is dispatched at its target alone; [innerHTML] is
    the markup string last assigned to it. *)

Module Dom.

(** Element nodes live in a store and are addressed by reference; a node
    keeps its identity whether or not it is attached to the document. *)
Definition ref := positive.

(** What [getElementById] returns and what a closure captures. *)
Inductive value :=
  | VNull
  | VElement (r : ref).

(** The two function expressions of the script, as closures: the one passed
    to [document.addEventListener] captures nothing, the one passed to
    [mainButton.addEventListener] captures the variable [output]. *)
Inductive Callback :=
  | LoadedListener
  | ClickListener (output : value).

Record Element := mkElement {
  elemId : option string;
  innerHTML : string;
  listeners : list (string * Callback)
}.

(** [loaded] tells whether the host has already fired [DOMContentLoaded]. *)
Record Page := mkPage {
  heap : gmap ref Element;
  tree : list ref;
  documentListeners : list (string * Callback);
  console : list string;
  loaded : bool
}.

Inductive Exn :=
  | TypeError (msg : string).

(** A computation runs on a page and either returns or throws; the page it
    leaves behind is kept in both cases. *)
Inductive Result (A : Type) :=
  | Return (a : A) (p : Page)
  | Throw (e : Exn) (p : Page).
Arguments Return {A} a p.
Arguments Throw {A} e p.

Definition M (A : Type) : Type := Page → Result A.

Definition ret {A} (a : A) : M A := λ p, Return a p.

Definition bind {A B} (m : M A) (k : A → M B) : M B :=
  λ p, match m p with
       | Return a p' => k a p'
       | Throw e p' => Throw e p'
       end.

Notation "'let*' x ':=' m 'in' k" := (bind m (λ x, k))
  (at level 10, x name, m at level 100, k at level 200).
Notation "m ';;' k" := (bind m (λ _, k))
  (at level 100, k at level 200, right associativity).

Definition page_of {A} (r : Result A) : Page :=
  match r with
  | Return _ p => p
  | Throw _ p => p
  end.

Definition error_of {A} (r : Result A) : option Exn :=
  match r with
  | Return _ _ => None
  | Throw e _ => Some e
  end.

(** *** Primitives of the host *)

Definition console_log (msg : string) : M unit :=
  λ p, Return tt (mkPage (heap p) (tree p) (documentListeners p)
                         (console p ++ [msg]) (loaded p)).

Definition has_id (h : gmap ref Element) (i : string) (r : ref) : bool :=
  match h !! r with
  | Some e => bool_decide (elemId e = Some i)
  | None => false
  end.

(** The first attached node, in tree order, whose id is [i]; [null] when
    there is none. *)
Definition first_with_id (h : gmap ref Element) (t : list ref) (i : string)
  : value :=
  match List.find (has_id h i) t with
  | Some r => VElement r
  | None => VNull
  end.

Definition element_by_id (p : Page) (i : string) : value :=
  first_with_id (heap p) (tree p) i.

Definition getElementById (i : string) : M value :=
  λ p, Return (element_by_id p i) p.

(** JavaScript truthiness of a nullable element. *)
Definition truthy (v : value) : bool :=
  match v with
  | VNull => false
  | VElement _ => true
  end.

Definition set_heap (h : gmap ref Element) (p : Page) : Page :=
  mkPage h (tree p) (documentListeners p) (console p) (loaded p).

Definition document_addEventListener (type : string) (cb : Callback) : M unit :=
  λ p, Return tt (mkPage (heap p) (tree p) (documentListeners p ++ [(type, cb)])
                         (console p) (loaded p)).

(** [target.addEventListener(type, cb)]; a [TypeError] when [target] is
    [null]. *)
Definition addEventListener (target : value) (type : string) (cb : Callback)
  : M unit :=
  λ p, match target with
       | VNull => Throw (TypeError "Cannot read properties of null") p
       | VElement r =>
           match heap p !! r with
           | Some e =>
               Return tt (set_heap
                 (<[r := mkElement (elemId e) (innerHTML e)
                                   (listeners e ++ [(type, cb)])]> (heap p)) p)
           | None => Throw (TypeError "dangling reference") p
           end
       end.

(** [target.innerHTML = markup]; a [TypeError] when [target] is [null]. *)
Definition set_innerHTML (target : value) (markup : string) : M unit :=
  λ p, match target with
       | VNull => Throw (TypeError "Cannot set properties of null") p
       | VElement r =>
           match heap p !! r with
           | Some e =>
               Return tt (set_heap
                 (<[r := mkElement (elemId e) markup (listeners e)]> (heap p)) p)
           | None => Throw (TypeError "dangling reference") p
           end
       end.

(** The content of the element [r], if the store has it. *)
Definition content (p : Page) (r : ref) : option string :=
  innerHTML <$> heap p !! r.

(** The listeners registered for one event type, in registration order. *)
Definition registered (type : string) (ls : list (string * Callback))
  : list Callback :=
  (filter (λ l, l.1 = type) ls).*2.

Global Instance value_eq_dec : EqDecision value.
Proof. solve_decision. Defined.

Global Instance Callback_eq_dec : EqDecision Callback.
Proof. solve_decision. Defined.

(** No element has a listener of any kind. *)
Definition pristine (p : Page) : Prop :=
  map_Forall (λ _ e, listeners e = []) (heap p).

(** A page as the host hands it to the script: nothing is registered yet,
    on the document or on any element. *)
Definition fresh (p : Page) : Prop :=
  documentListeners p = [] ∧ pristine p.

End Dom.

(** ** The script *)

Module Script.
Import Dom.

Definition greeting : string := "Hello from Habit Tracker Pro!".
Definition notice : string := "Habit Tracker Pro loaded successfully!".

Section Greeter.

(** [new Date().toLocaleTimeString()] at clock reading [now]. *)
Variable toLocaleTimeString : Z → string.

(** script.js line 11, the string assigned to [output.innerHTML]. *)
Definition markup (now : Z) : string :=
  ("<p>Hello from Habit Tracker Pro! Button clicked at "
     +:+ toLocaleTimeString now) +:+ "</p>".

(** script.js lines 10-12, the body of the click listener. *)
Definition clickListener (output : value) (now : Z) : M unit :=
  set_innerHTML output (markup now).

(** script.js lines 2-14, the body of the [DOMContentLoaded] listener. *)
Definition loadedListener : M unit :=
  console_log "Habit Tracker Pro loaded successfully!" ;;
  let* mainButton := getElementById "mainButton" in
  let* output := getElementById "output" in
  if truthy mainButton && truthy output then
    addEventListener mainButton "click" (ClickListener output)
  else ret tt.

(** script.js line 2, the top level of the script. *)
Definition script : M unit :=
  document_addEventListener "DOMContentLoaded" LoadedListener.

(** Calling a closure. *)
Definition call (cb : Callback) (now : Z) : M unit :=
  match cb with
  | LoadedListener => loadedListener
  | ClickListener output => clickListener output now
  end.

(** *** Event dispatch *)

(** What became of one listener invocation: the closure called and the
    error it threw, if any. *)
Definition Outcome : Type := Callback * option Exn.

(** The listeners of a target run in order; an error thrown by one is
    reported and the next one still runs. *)
Fixpoint invoke (cbs : list Callback) (now : Z) (p : Page)
  : Page * list Outcome :=
  match cbs with
  | [] => (p, [])
  | cb :: rest =>
      let r := call cb now p in
      let '(p', log) := invoke rest now (page_of r) in
      (p', (cb, error_of r) :: log)
  end.

Inductive Event :=
  | DOMContentLoaded (now : Z)
  | Click (target : ref) (now : Z).

Definition set_loaded (p : Page) : Page :=
  mkPage (heap p) (tree p) (documentListeners p) (console p) true.

(** The host fires [DOMContentLoaded] on the document once, when parsing
    has finished; a click runs the [click] listeners of its target. *)
Definition step (p : Page) (ev : Event) : Page * list Outcome :=
  match ev with
  | DOMContentLoaded now =>
      if loaded p then (p, [])
      else invoke (registered "DOMContentLoaded" (documentListeners p)) now
                  (set_loaded p)
  | Click target now =>
      match heap p !! target with
      | Some e => invoke (registered "click" (listeners e)) now p
      | None => (p, [])
      end
  end.

Fixpoint run (evs : list Event) (p : Page) : Page * list Outcome :=
  match evs with
  | [] => (p, [])
  | ev :: rest =>
      let '(p1, log1) := step p ev in
      let '(p2, log2) := run rest p1 in
      (p2, log1 ++ log2)
  end.

(** The page once the script has been evaluated. *)
Definition boot (host : Page) : Page := page_of (script host).

(** The pages a host page can evolve into under the events of the host. *)
Inductive reachable (host : Page) : Page → Prop :=
  | reach_boot : reachable host (boot host)
  | reach_step p ev : reachable host p → reachable host (step p ev).1.

(** *** The two states of the component *)

Inductive State :=
  | Unbound
  | Bound.

Definition has_click_listener (e : Element) : Prop :=
  registered "click" (listeners e) ≠ [].

Definition bound (p : Page) : Prop :=
  map_Exists (λ _ e, has_click_listener e) (heap p).

Definition state (p : Page) : State :=
  if decide (bound p) then Bound else Unbound.

(** Bound, in detail: the page has loaded, the button [b] carries exactly
    the click listener that captured [o], and no other element carries a
    listener. *)
Definition wired (b o : ref) (p : Page) : Prop :=
  loaded p = true ∧
  is_Some (heap p !! o) ∧
  (∃ e, heap p !! b = Some e ∧
        registered "click" (listeners e) = [ClickListener (VElement o)]) ∧
  (∀ r e, r ≠ b → heap p !! r = Some e → listeners e = []).

(** Unbound, in detail: the script has been evaluated and no element
    carries a listener. *)
Definition idle (p : Page) : Prop :=
  pristine p ∧ documentListeners p = [("DOMContentLoaded", LoadedListener)].

(** A host page that is still loading and has both elements: [b] is what
    the lookup of [mainButton] finds and [o] what the lookup of [output]
    finds. *)
Definition ready (host : Page) (b o : ref) : Prop :=
  fresh host ∧ loaded host = false ∧
  element_by_id host "mainButton" = VElement b ∧
  element_by_id host "output" = VElement o.

(** The clock reading of an activation of the control [b]. *)
Definition activation (b : ref) (ev : Event) : option Z :=
  match ev with
  | Click r now => if decide (r = b) then Some now else None
  | DOMContentLoaded _ => None
  end.

Fixpoint last_activation (b : ref) (evs : list Event) : option Z :=
  match evs with
  | [] => None
  | ev :: rest =>
      match last_activation b rest with
      | Some t => Some t
      | None => activation b ev
      end
  end.

(** The number of Unbound-to-Bound transitions along a run. *)
Fixpoint bindings (evs : list Event) (p : Page) : nat :=
  match evs with
  | [] => 0%nat
  | ev :: rest =>
      let p' := (step p ev).1 in
      ((match state p, state p' with
        | Unbound, Bound => 1
        | _, _ => 0
        end) + bindings rest p')%nat
  end.

End Greeter.

(** *** The spec's description of the output *)

Definition prefix_text : string :=
  "Hello from Habit Tracker Pro! Button clicked at ".

(** A single paragraph element with the given text. *)
Definition paragraph (text : string) : string := "<p>" +:+ text +:+ "</p>".

(** *** A sample host document: the button, then the output container *)

Definition button_ref : ref := 1%positive.
Definition output_ref : ref := 2%positive.

Definition demo : Page :=
  mkPage (<[button_ref := mkElement (Some "mainButton") "Click Me" []]>
          (<[output_ref := mkElement (Some "output") EmptyString []]> ∅))
         [button_ref; output_ref] [] [] false.

(** The same document without the output container. *)
Definition demo_no_output : Page :=
  mkPage (<[button_ref := mkElement (Some "mainButton") "Click Me" []]> ∅)
         [button_ref] [] [] false.

End Script.

(** ** The script in the life of a page

    What the script does not decide but meets: how often it is evaluated,
    whether the page has already loaded by then, and what the host does to
    the document afterwards. *)

Module Lifecycle.
Import Dom Script.

Definition is_click (ev : Event) : bool :=
  match ev with
  | Click _ _ => true
  | DOMContentLoaded _ => false
  end.

(** The clock readings of the activations of the control [b], in order. *)
Definition activations (b : ref) (evs : list Event) : list Z :=
  omap (activation b) evs.

(** The page once the script has been evaluated [k] times, as when the
    same script element occurs [k] times in the document. *)
Definition boot_n (k : nat) (host : Page) : Page := Nat.iter k boot host.

(** The host, or another script, changes which nodes are attached to the
    document; the store keeps the detached ones. *)
Definition reattach (t : list ref) (p : Page) : Page :=
  mkPage (heap p) t (documentListeners p) (console p) (loaded p).

(** The button [b] carries [k] click listeners, each of which captured
    [o]; no other element carries a listener. *)
Definition wired_n (k : nat) (b o : ref) (p : Page) : Prop :=
  loaded p = true ∧
  is_Some (heap p !! o) ∧
  (∃ e, heap p !! b = Some e ∧
        registered "click" (listeners e)
        = replicate k (ClickListener (VElement o))) ∧
  (∀ r e, r ≠ b → heap p !! r = Some e → listeners e = []).

(** [p'] has every node of [p], with the same id and with listeners that
    extend those it had; the document's listeners are the same, and a
    loaded page stays loaded. *)
Definition extends (p p' : Page) : Prop :=
  documentListeners p' = documentListeners p ∧
  (loaded p = true → loaded p' = true) ∧
  ∀ r e, heap p !! r = Some e →
         ∃ e', heap p' !! r = Some e' ∧ elemId e' = elemId e ∧
               listeners e `prefix_of` listeners e'.

(** The sample document, handed over after it has loaded. *)
Definition demo_late : Page := set_loaded demo.

End Lifecycle.

(** * Properties *)

(** ** Strings *)

Module StrFacts.
Import Str.

Local Arguments String.append : simpl nomatch.

Lemma append_assoc (a b c : string) : (a +:+ b) +:+ c = a +:+ b +:+ c.
Proof. induction a as [|x a IH]; simpl; [reflexivity | by rewrite IH]. Qed.

Lemma prefix_spec (a s : string) :
  String.prefix a s = true ↔ ∃ post, s = a +:+ post.
Proof.
  revert s. induction a as [|x a IH]; intros s.
  - destruct s; simpl; split; eauto.
  - destruct s as [|y s]; simpl.
    + split; [discriminate | intros [post H]; discriminate].
    + destruct (ascii_dec x y) as [->|Hne].
      * rewrite IH. split; intros [post H]; exists post; congruence.
      * split; [discriminate | intros [post H]; congruence].
Qed.

Lemma includes_spec (a s : string) : includes a s = true ↔ contains s a.
Proof.
  unfold contains. induction s as [|y s IH].
  - cbn [includes]. rewrite orb_false_r, prefix_spec. split.
    + intros [post H]. by exists EmptyString, post.
    + intros ([|? pre] & post & H); [by exists post | discriminate].
  - cbn [includes]. rewrite orb_true_iff, prefix_spec, IH. split.
    + intros [[post H] | (pre & post & H)].
      * by exists EmptyString, post.
      * exists (String y pre), post. simpl. by rewrite H.
    + intros ([|x pre] & post & H).
      * left. by exists post.
      * right. exists pre, post. simpl in H. congruence.
Qed.

Lemma length_append (a b : string) :
  String.length (a +:+ b) = (String.length a + String.length b)%nat.
Proof. induction a as [|x a IH]; simpl; [reflexivity | by rewrite IH]. Qed.

Lemma append_inj_r (a b s : string) : a +:+ s = b +:+ s → a = b.
Proof.
  revert b. induction a as [|x a IH]; intros [|y b] H.
  - reflexivity.
  - apply (f_equal String.length) in H. simpl in H.
    rewrite length_append in H. lia.
  - apply (f_equal String.length) in H. simpl in H.
    rewrite length_append in H. lia.
  - simpl in H. injection H as -> H. f_equal. by apply IH.
Qed.

Lemma not_contains (a s : string) : includes a s = false → ¬ contains s a.
Proof. intros H C. apply includes_spec in C. congruence. Qed.

End StrFacts.

(** ** The sample time format *)

Module ClockFacts.
Import Clock.

Lemma all_from_spec f start fuel x :
  all_from f start fuel = true →
  start ≤ x < start + Z.of_nat fuel → f x = true.
Proof.
  revert start. induction fuel as [|k IH]; intros start H Hx; [lia|].
  cbn [all_from] in H. apply andb_true_iff in H as [H0 Hk].
  destruct (decide (x = start)) as [->|Hne]; [done|].
  apply (IH (start + 1)); [done | lia].
Qed.

Lemma all_seconds_read_back :
  all_from reads_back 0 (Z.to_nat secondsPerDay) = true.
Proof. vm_compute. reflexivity. Qed.

(** Formatting a second of the day and reading it back is the identity. *)
Lemma parse_format (s : Z) :
  0 ≤ s < secondsPerDay → parse_hms (format_hms s) = Some s.
Proof.
  intros Hs.
  pose proof (all_from_spec reads_back 0 (Z.to_nat secondsPerDay) s
                all_seconds_read_back) as H.
  unfold reads_back in H.
  destruct (parse_hms (format_hms s)) as [x|].
  - f_equal. apply Z.eqb_eq, H. unfold secondsPerDay in *. lia.
  - discriminate H. unfold secondsPerDay in *. lia.
Qed.

Lemma secondOfDay_range (t : Z) : 0 ≤ secondOfDay t < secondsPerDay.
Proof. apply Z.mod_pos_bound. reflexivity. Qed.

Lemma enUS_second_resolution : second_resolution toLocaleTimeString_enUS.
Proof.
  intros t1 t2 Hne Heq. apply Hne.
  unfold toLocaleTimeString_enUS in Heq.
  pose proof (parse_format _ (secondOfDay_range t1)) as H1.
  pose proof (parse_format _ (secondOfDay_range t2)) as H2.
  congruence.
Qed.

(** Readings at least one second and at most a day less one second apart
    fall in different seconds of the day. *)
Lemma seconds_apart (t1 t2 : Z) :
  msPerSecond ≤ t2 - t1 ≤ msPerDay - msPerSecond →
  secondOfDay t1 ≠ secondOfDay t2.
Proof.
  unfold secondOfDay, msPerDay, msPerSecond, secondsPerDay. intros H Heq.
  pose proof (Z.div_mod t1 1000 ltac:(lia)) as E1.
  pose proof (Z.div_mod t2 1000 ltac:(lia)) as E2.
  pose proof (Z.mod_pos_bound t1 1000 ltac:(lia)) as B1.
  pose proof (Z.mod_pos_bound t2 1000 ltac:(lia)) as B2.
  set (a := t1 / 1000) in *. set (b := t2 / 1000) in *.
  assert (Hd : 1 ≤ b - a ≤ 86399) by lia.
  pose proof (Z.div_mod a 86400 ltac:(lia)) as Ea.
  pose proof (Z.div_mod b 86400 ltac:(lia)) as Eb.
  rewrite Heq in Ea.
  assert (b - a = 86400 * (b / 86400 - a / 86400)) by lia.
  lia.
Qed.

(** Whole days do not change the second of the day. *)
Lemma secondOfDay_days (t q : Z) :
  secondOfDay (t + msPerDay * q) = secondOfDay t.
Proof.
  unfold secondOfDay, msPerDay, msPerSecond, secondsPerDay.
  replace (t + 1000 * 86400 * q) with (t + 86400 * q * 1000) by lia.
  rewrite Z.div_add by lia.
  replace (t / 1000 + 86400 * q) with (t / 1000 + q * 86400) by lia.
  apply Z_mod_plus_full.
Qed.

(** Readings whose difference, whole days set aside, is at least one second
    and at most a day less one second fall in different seconds of the
    day. *)
Lemma seconds_apart_mod (t1 t2 : Z) :
  msPerSecond ≤ (t2 - t1) mod msPerDay ≤ msPerDay - msPerSecond →
  secondOfDay t1 ≠ secondOfDay t2.
Proof.
  intros H.
  assert (E : t2 = t1 + (t2 - t1) mod msPerDay
                   + msPerDay * ((t2 - t1) / msPerDay)).
  { pose proof (Z.div_mod (t2 - t1) msPerDay ltac:(done)). lia. }
  rewrite E, secondOfDay_days. apply seconds_apart. lia.
Qed.

(** A time of day comes round again: one day later the string is the same. *)
Lemma enUS_daily (t : Z) :
  toLocaleTimeString_enUS (t + msPerDay) = toLocaleTimeString_enUS t.
Proof.
  unfold toLocaleTimeString_enUS, secondOfDay, msPerDay, msPerSecond,
    secondsPerDay. f_equal.
  replace (t + 1000 * 86400) with (t + 86400 * 1000) by lia.
  rewrite Z.div_add by lia. rewrite Z.add_mod by lia.
  rewrite Z.mod_same by lia. rewrite Z.add_0_r. apply Z.mod_mod. lia.
Qed.

End ClockFacts.

(** ** The host primitives *)

Module DomFacts.
Import Dom.

Lemma element_by_id_found (p : Page) (i : string) (r : ref) :
  element_by_id p i = VElement r →
  ∃ e, heap p !! r = Some e ∧ elemId e = Some i.
Proof.
  unfold element_by_id, first_with_id.
  destruct (List.find _ _) as [r'|] eqn:F; [|done].
  intros [= ->]. apply find_some in F as [_ F]. unfold has_id in F.
  destruct (heap p !! r) as [e|]; [|done].
  exists e. split; [done | by apply bool_decide_eq_true in F].
Qed.

Lemma element_by_id_ext (p q : Page) (i : string) :
  heap p = heap q → tree p = tree q → element_by_id p i = element_by_id q i.
Proof. unfold element_by_id. by intros -> ->. Qed.

Lemma registered_nil (type : string) : registered type [] = [].
Proof. reflexivity. Qed.

Lemma registered_app (type : string) (l1 l2 : list (string * Callback)) :
  registered type (l1 ++ l2) = registered type l1 ++ registered type l2.
Proof. unfold registered. by rewrite filter_app, fmap_app. Qed.

Lemma truthy_null (v : value) : truthy v = false ↔ v = VNull.
Proof. destruct v; simpl; split; congruence. Qed.

Lemma pristine_lookup (p : Page) (r : ref) (e : Element) :
  pristine p → heap p !! r = Some e → listeners e = [].
Proof. intros H. apply (H r e). Qed.

End DomFacts.

(** ** The script *)

Module ScriptFacts.
Import Dom Script DomFacts.

Section WithFormatter.

Variable fmt : Z → string.

Lemma markup_paragraph (now : Z) :
  markup fmt now = paragraph (prefix_text +:+ fmt now).
Proof. unfold markup, paragraph. by rewrite StrFacts.append_assoc. Qed.

Lemma markup_contains_greeting (now : Z) :
  Str.contains (markup fmt now) greeting.
Proof.
  exists "<p>", (" Button clicked at " +:+ fmt now +:+ "</p>").
  unfold markup. by rewrite StrFacts.append_assoc.
Qed.

(** *** The [DOMContentLoaded] listener *)

Lemma loadedListener_binds (p : Page) (b o : ref) :
  element_by_id p "mainButton" = VElement b →
  element_by_id p "output" = VElement o →
  ∃ e, heap p !! b = Some e ∧
       loadedListener p =
       Return tt (mkPage
         (<[b := mkElement (elemId e) (innerHTML e)
                  (listeners e ++ [("click", ClickListener (VElement o))])]>
            (heap p))
         (tree p) (documentListeners p) (console p ++ [notice]) (loaded p)).
Proof.
  intros Hb Ho. destruct (element_by_id_found _ _ _ Hb) as (e & He & _).
  exists e. split; [done|].
  unfold element_by_id in Hb, Ho.
  unfold loadedListener, bind, console_log, getElementById, element_by_id.
  cbn [heap tree]. rewrite Hb, Ho. cbn [truthy andb].
  unfold addEventListener, set_heap. cbn [heap tree]. by rewrite He.
Qed.

Lemma loadedListener_inert (p : Page) :
  element_by_id p "mainButton" = VNull ∨ element_by_id p "output" = VNull →
  loadedListener p =
  Return tt (mkPage (heap p) (tree p) (documentListeners p)
                    (console p ++ [notice]) (loaded p)).
Proof.
  intros H. unfold element_by_id in H.
  unfold loadedListener, bind, console_log, getElementById, element_by_id.
  cbn [heap tree].
  destruct H as [-> | ->]; cbn [truthy andb]; [done|].
  by rewrite andb_false_r.
Qed.

(** *** Single steps *)

Lemma wired_click (b o : ref) (p : Page) (now : Z) :
  wired b o p →
  ∃ p', step fmt p (Click b now) = (p', [(ClickListener (VElement o), None)]) ∧
        wired b o p' ∧
        content p' o = Some (markup fmt now) ∧
        (∀ r, r ≠ o → content p' r = content p r) ∧
        console p' = console p.
Proof.
  intros (Hl & [eo Ho] & (eb & Hb & Hreg) & Hoth).
  unfold step. rewrite Hb, Hreg. cbn [invoke call].
  unfold clickListener, set_innerHTML. rewrite Ho. cbn [page_of error_of].
  eexists. split; [reflexivity|]. unfold wired, content, set_heap.
  cbn [heap loaded console]. repeat split.
  - done.
  - rewrite lookup_insert_eq. eauto.
  - destruct (decide (b = o)) as [->|Hne].
    + rewrite lookup_insert_eq. eexists. split; [done|].
      cbn [listeners]. congruence.
    + rewrite lookup_insert_ne by done. eauto.
  - intros r e Hr. destruct (decide (r = o)) as [->|Hne].
    + rewrite lookup_insert_eq. intros [= <-]. cbn [listeners]. eauto.
    + rewrite lookup_insert_ne by done. eauto.
  - by rewrite lookup_insert_eq.
  - intros r Hr. by rewrite lookup_insert_ne.
Qed.

Lemma wired_other (b o : ref) (p : Page) (ev : Event) :
  wired b o p → activation b ev = None → step fmt p ev = (p, []).
Proof.
  intros (Hl & _ & _ & Hoth) Hact. destruct ev as [now | r now]; unfold step.
  - by rewrite Hl.
  - cbn [activation] in Hact. case_decide; [done|].
    destruct (heap p !! r) as [e|] eqn:He; [|done].
    by rewrite (Hoth r e).
Qed.

Lemma activation_click (b : ref) (ev : Event) (now : Z) :
  activation b ev = Some now → ev = Click b now.
Proof.
  destruct ev as [n | r n]; cbn [activation]; [done|].
  case_decide; [|done]. by intros [= ->]; subst.
Qed.

Lemma pristine_click (p : Page) (r : ref) (now : Z) :
  pristine p → step fmt p (Click r now) = (p, []).
Proof.
  intros Hp. unfold step. destruct (heap p !! r) as [e|] eqn:He; [|done].
  by rewrite (pristine_lookup p r e).
Qed.

Lemma loaded_again (p : Page) (now : Z) :
  loaded p = true → step fmt p (DOMContentLoaded now) = (p, []).
Proof. intros H. unfold step. by rewrite H. Qed.

Lemma idle_load_binds (p : Page) (b o : ref) (n0 : Z) :
  idle p → loaded p = false →
  element_by_id p "mainButton" = VElement b →
  element_by_id p "output" = VElement o →
  ∃ p1, step fmt p (DOMContentLoaded n0) = (p1, [(LoadedListener, None)]) ∧
        wired b o p1 ∧
        (∀ r, content p1 r = content p r) ∧
        console p1 = console p ++ [notice].
Proof.
  intros [Hp Hd] Hl Hb Ho. unfold step. rewrite Hl, Hd.
  change (registered _ _) with [LoadedListener]. cbn [invoke call].
  destruct (loadedListener_binds (set_loaded p) b o Hb Ho) as (e & He & ->).
  destruct (element_by_id_found _ _ _ Ho) as (eo & Heo & _).
  cbn [page_of error_of set_loaded heap tree documentListeners console loaded]
    in *.
  eexists. split; [reflexivity|]. unfold wired, content.
  cbn [heap loaded console]. repeat split.
  - apply lookup_insert_is_Some. destruct (decide (b = o)); eauto.
  - rewrite lookup_insert_eq. eexists. split; [done|]. cbn [listeners].
    by rewrite (pristine_lookup p b e), app_nil_l.
  - intros r e' Hr. rewrite lookup_insert_ne by done. apply (Hp r e').
  - intros r. destruct (decide (r = b)) as [->|Hne].
    + by rewrite lookup_insert_eq, He.
    + by rewrite lookup_insert_ne.
Qed.

Lemma idle_load_inert (p : Page) (n0 : Z) :
  idle p → loaded p = false →
  element_by_id p "mainButton" = VNull ∨ element_by_id p "output" = VNull →
  step fmt p (DOMContentLoaded n0) =
  (mkPage (heap p) (tree p) (documentListeners p) (console p ++ [notice]) true,
   [(LoadedListener, None)]).
Proof.
  intros [Hp Hd] Hl Habs. unfold step. rewrite Hl, Hd.
  change (registered _ _) with [LoadedListener]. cbn [invoke call].
  rewrite (loadedListener_inert (set_loaded p) Habs).
  cbn [page_of error_of set_loaded heap tree documentListeners console loaded].
  by rewrite Hd.
Qed.

Lemma boot_idle (host : Page) : fresh host → idle (boot host).
Proof. intros [Hd Hp]. split; [done|]. cbn. by rewrite Hd. Qed.

(** A step from an Unbound page either leaves it Unbound, invoking at most
    the load listener, or is the load event on a loading page with both
    elements, and binds. *)
Lemma idle_step (p : Page) (ev : Event) :
  idle p →
  (idle (step fmt p ev).1 ∧
   (loaded p = true → loaded (step fmt p ev).1 = true) ∧
   (∀ r, content (step fmt p ev).1 r = content p r) ∧
   ((step fmt p ev).2 = [] ∨
    (step fmt p ev).2 = [(LoadedListener, None)] ∧ loaded p = false ∧
    loaded (step fmt p ev).1 = true)) ∨
  (∃ b o n0, ev = DOMContentLoaded n0 ∧ loaded p = false ∧
     element_by_id p "mainButton" = VElement b ∧
     element_by_id p "output" = VElement o ∧
     wired b o (step fmt p ev).1).
Proof.
  intros Hi. destruct ev as [n0 | r now].
  - destruct (loaded p) eqn:Hl.
    { left. rewrite loaded_again by done. cbn [fst snd]. auto. }
    destruct (element_by_id p "mainButton") as [|b] eqn:Hb.
    { left. rewrite idle_load_inert by auto. destruct Hi as [Hp Hd].
      cbn [fst snd]. repeat split; auto. }
    destruct (element_by_id p "output") as [|o] eqn:Ho.
    { left. rewrite idle_load_inert by auto. destruct Hi as [Hp Hd].
      cbn [fst snd]. repeat split; auto. }
    right. exists b, o, n0.
    destruct (idle_load_binds p b o n0 Hi Hl Hb Ho) as (p1 & -> & Hw & _).
    auto.
  - left. rewrite pristine_click by apply Hi. cbn [fst snd]. auto.
Qed.

(** *** The two states *)

Lemma pristine_unbound (p : Page) : pristine p → state p = Unbound.
Proof.
  intros Hp. unfold state. case_decide as Hb; [|done].
  destruct Hb as (r & e & He & Hc). exfalso. apply Hc.
  by rewrite (pristine_lookup p r e).
Qed.

Lemma wired_bound (b o : ref) (p : Page) : wired b o p → state p = Bound.
Proof.
  intros (_ & _ & (e & He & Hreg) & _). unfold state.
  case_decide as Hb; [done|]. exfalso. apply Hb. exists b, e.
  split; [done|]. unfold has_click_listener. by rewrite Hreg.
Qed.

(** *** Runs *)

Lemma wired_step (b o : ref) (p : Page) (ev : Event) :
  wired b o p → wired b o (step fmt p ev).1.
Proof.
  intros Hw. destruct (activation b ev) as [now|] eqn:Ha.
  - apply activation_click in Ha as ->.
    by destruct (wired_click b o p now Hw) as (p' & -> & Hw' & _).
  - by rewrite (wired_other b o p ev).
Qed.

Lemma run_wired (b o : ref) (evs : list Event) (p : Page) :
  wired b o p →
  wired b o (run fmt evs p).1 ∧
  content (run fmt evs p).1 o =
    match last_activation b evs with
    | Some t => Some (markup fmt t)
    | None => content p o
    end ∧
  (∀ r, r ≠ o → content (run fmt evs p).1 r = content p r) ∧
  console (run fmt evs p).1 = console p ∧
  Forall (λ oc : Outcome, oc.2 = None) (run fmt evs p).2.
Proof.
  revert p. induction evs as [|ev rest IH]; intros p Hw.
  { cbn. auto. }
  cbn [run last_activation].
  destruct (activation b ev) as [now|] eqn:Ha.
  - apply activation_click in Ha as ->.
    destruct (wired_click b o p now Hw) as (p1 & -> & Hw1 & Hc & Hr & Hk).
    destruct (IH p1 Hw1) as (Hw2 & Hc2 & Hr2 & Hk2 & Hlog).
    destruct (run fmt rest p1) as [p2 log2]. cbn [fst snd app] in *.
    split; [done|]. split; [|split; [|split]].
    + rewrite Hc2. destruct (last_activation b rest); [done|].
      by rewrite Hc.
    + intros r Hne. rewrite Hr2 by done. auto.
    + congruence.
    + by constructor.
  - rewrite (wired_other b o p ev Hw Ha).
    destruct (IH p Hw) as (Hw2 & Hc2 & Hr2 & Hk2 & Hlog).
    destruct (run fmt rest p) as [p2 log2]. cbn [fst snd app] in *.
    split; [done|]. split; [|done].
    rewrite Hc2. by destruct (last_activation b rest).
Qed.

Lemma run_cons (ev : Event) (rest : list Event) (p : Page) :
  run fmt (ev :: rest) p =
  ((run fmt rest (step fmt p ev).1).1,
   (step fmt p ev).2 ++ (run fmt rest (step fmt p ev).1).2).
Proof.
  cbn [run]. destruct (step fmt p ev) as [p1 log1]. cbn [fst snd].
  by destruct (run fmt rest p1).
Qed.

Lemma run_app (evs1 evs2 : list Event) (p : Page) :
  (run fmt (evs1 ++ evs2) p).1 = (run fmt evs2 (run fmt evs1 p).1).1.
Proof.
  revert p. induction evs1 as [|ev rest IH]; intros p; [done|].
  cbn [app]. rewrite !run_cons. cbn [fst]. apply IH.
Qed.

Lemma last_activation_snoc (b : ref) (evs : list Event) (now : Z) :
  last_activation b (evs ++ [Click b now]) = Some now.
Proof.
  induction evs as [|ev rest IH]; cbn [app last_activation].
  - cbn [activation]. by rewrite decide_True.
  - by rewrite IH.
Qed.

(** *** Reachable pages *)

Lemma reachable_inv (host p : Page) :
  fresh host → reachable fmt host p → idle p ∨ ∃ b o, wired b o p.
Proof.
  intros Hf Hr. induction Hr as [|p ev Hr IH].
  - left. by apply boot_idle.
  - destruct IH as [Hi | (b & o & Hw)].
    + destruct (idle_step p ev Hi) as [(Hi' & _) | (b & o & _ & _ & _ & _ & _ & Hw)];
        eauto.
    + right. exists b, o. by apply wired_step.
Qed.

Lemma run_inert (evs : list Event) (p : Page) :
  pristine p → loaded p = true → run fmt evs p = (p, []).
Proof.
  intros Hp Hl. induction evs as [|ev rest IH]; [done|].
  rewrite run_cons. destruct ev as [now | r now].
  - rewrite loaded_again by done. cbn [fst snd]. by rewrite IH.
  - rewrite pristine_click by done. cbn [fst snd]. by rewrite IH.
Qed.

(** *** From a host page with both elements *)

Lemma ready_load (host : Page) (b o : ref) (n0 : Z) :
  ready host b o →
  ∃ p1, step fmt (boot host) (DOMContentLoaded n0)
          = (p1, [(LoadedListener, None)]) ∧
        wired b o p1 ∧
        (∀ r, content p1 r = content host r) ∧
        console p1 = console host ++ [notice].
Proof.
  intros (Hf & Hl & Hb & Ho).
  apply (idle_load_binds (boot host) b o n0); auto using boot_idle.
Qed.

Lemma ready_run (host : Page) (b o : ref) (n0 : Z) (evs : list Event) :
  ready host b o →
  wired b o (run fmt (DOMContentLoaded n0 :: evs) (boot host)).1 ∧
  content (run fmt (DOMContentLoaded n0 :: evs) (boot host)).1 o =
    match last_activation b evs with
    | Some t => Some (markup fmt t)
    | None => content host o
    end ∧
  (∀ r, r ≠ o →
     content (run fmt (DOMContentLoaded n0 :: evs) (boot host)).1 r
     = content host r) ∧
  console (run fmt (DOMContentLoaded n0 :: evs) (boot host)).1
    = console host ++ [notice] ∧
  Forall (λ oc : Outcome, oc.2 = None)
         (run fmt (DOMContentLoaded n0 :: evs) (boot host)).2.
Proof.
  intros Hr. destruct (ready_load host b o n0 Hr) as (p1 & E & Hw & Hc & Hk).
  rewrite run_cons, E. cbn [fst snd].
  destruct (run_wired b o evs p1 Hw) as (Hw2 & Hc2 & Hr2 & Hk2 & Hlog).
  split; [done|]. split; [|split; [|split]].
  - rewrite Hc2. by rewrite Hc.
  - intros r Hne. by rewrite Hr2, Hc.
  - congruence.
  - by constructor.
Qed.

Lemma last_activation_clicks (b : ref) (ts : list Z) :
  last_activation b (Click b <$> ts) = last ts.
Proof.
  induction ts as [|t rest IH]; [done|].
  cbn [fmap list_fmap last_activation]. fold (Click b <$> rest). rewrite IH.
  destruct rest as [|t' rest']; cbn [last activation].
  - by rewrite decide_True.
  - change (last (t :: t' :: rest')) with (last (t' :: rest')).
    destruct (last (t' :: rest')) eqn:E; [done|].
    by apply last_None in E.
Qed.

(** *** Transitions *)

Lemma bindings_wired (b o : ref) (evs : list Event) (p : Page) :
  wired b o p → bindings fmt evs p = 0%nat.
Proof.
  revert p. induction evs as [|ev rest IH]; intros p Hw; [done|].
  cbn [bindings]. rewrite (wired_bound b o p Hw).
  by rewrite (IH _ (wired_step b o p ev Hw)).
Qed.

Lemma bindings_idle (evs : list Event) (p : Page) :
  idle p → (bindings fmt evs p ≤ 1)%nat.
Proof.
  revert p. induction evs as [|ev rest IH]; intros p Hi; [cbn; lia|].
  cbn [bindings]. rewrite (pristine_unbound p) by apply Hi.
  destruct (idle_step p ev Hi)
    as [(Hi' & _) | (b & o & _ & _ & _ & _ & _ & Hw)].
  - rewrite (pristine_unbound (step fmt p ev).1) by apply Hi'.
    apply (IH _ Hi').
  - rewrite (wired_bound b o _ Hw), (bindings_wired b o rest _ Hw). lia.
Qed.

End WithFormatter.

End ScriptFacts.

(** ** The claims *)

Import Clock Dom Script.
Import StrFacts ClockFacts DomFacts ScriptFacts.

(** Evaluation settles what a sample document is. *)
Ltac sample_page :=
  repeat match goal with
         | |- ready _ _ _ => unfold ready
         | |- fresh _ => unfold fresh
         | |- _ ∧ _ => split
         | |- pristine _ =>
             unfold pristine; apply (bool_decide_unpack _); vm_compute; exact I
         | |- _ = _ => reflexivity
         | |- _ ∨ _ => (left; reflexivity) || (right; reflexivity)
         end.

(** C1: with both elements present at initialization, one activation of
    the control replaces the content of the display target with a string
    that contains "Hello from Habit Tracker Pro!". *)
Theorem first_click_shows_greeting
    (fmt : Z → string) (host : Page) (b o : ref) (n0 now : Z) :
  ready host b o →
  ∃ c, content (run fmt [DOMContentLoaded n0; Click b now] (boot host)).1 o
         = Some c ∧
       Str.contains c greeting.
Proof.
  intros Hr. exists (markup fmt now). split.
  - destruct (ready_run fmt host b o n0 [Click b now] Hr) as (_ & Hc & _).
    rewrite Hc. cbn [last_activation activation]. by rewrite decide_True.
  - apply markup_contains_greeting.
Qed.

Lemma first_click_shows_greeting_witness :
  ∃ c, content (run toLocaleTimeString_enUS
                  [DOMContentLoaded 0; Click button_ref (at_time 0 14 30 0)]
                  (boot demo)).1 output_ref = Some c ∧
       Str.contains c greeting.
Proof. apply first_click_shows_greeting. sample_page. Defined.

(** C2: every activation writes a single paragraph whose text is the fixed
    prefix "Hello from Habit Tracker Pro! Button clicked at " followed by
    the formatted current time; where the host shows the clock reading as
    "2:30:00 PM", the content contains
    "Hello from Habit Tracker Pro! Button clicked at 2:30:00 PM". *)
Theorem activation_writes_paragraph
    (fmt : Z → string) (host : Page) (b o : ref) (n0 now : Z)
    (evs : list Event) :
  ready host b o →
  content (run fmt (DOMContentLoaded n0 :: evs ++ [Click b now])
             (boot host)).1 o
    = Some (paragraph (prefix_text +:+ fmt now)) ∧
  (fmt now = "2:30:00 PM" →
   ∃ c, content (run fmt (DOMContentLoaded n0 :: evs ++ [Click b now])
                   (boot host)).1 o = Some c ∧
        Str.contains c
          "Hello from Habit Tracker Pro! Button clicked at 2:30:00 PM").
Proof.
  intros Hr.
  destruct (ready_run fmt host b o n0 (evs ++ [Click b now]) Hr)
    as (_ & Hc & _).
  rewrite last_activation_snoc in Hc. rewrite Hc, markup_paragraph.
  split; [done|]. intros Hfmt. eexists. split; [done|].
  rewrite Hfmt. by exists "<p>", "</p>".
Qed.

Lemma activation_writes_paragraph_witness :
  toLocaleTimeString_enUS (at_time 0 14 30 0) = "2:30:00 PM" ∧
  ∃ c, content (run toLocaleTimeString_enUS
                  (DOMContentLoaded 0 ::
                   [Click button_ref (at_time 0 9 15 0)] ++
                   [Click button_ref (at_time 0 14 30 0)])
                  (boot demo)).1 output_ref = Some c ∧
       Str.contains c
         "Hello from Habit Tracker Pro! Button clicked at 2:30:00 PM".
Proof.
  split; [reflexivity|].
  apply (activation_writes_paragraph toLocaleTimeString_enUS demo
           button_ref output_ref 0 (at_time 0 14 30 0)
           [Click button_ref (at_time 0 9 15 0)]);
    [sample_page | reflexivity].
Defined.

(** C3, as amended: every activation writes a message in which the fixed
    text "Hello from Habit Tracker Pro!" is followed by the fixed text
    " Button clicked at " and then by the formatted current time. *)
Theorem greeting_then_label_then_time
    (fmt : Z → string) (host : Page) (b o : ref) (n0 now : Z)
    (evs : list Event) :
  ready host b o →
  ∃ c, content (run fmt (DOMContentLoaded n0 :: evs ++ [Click b now])
                  (boot host)).1 o = Some c ∧
       Str.contains c (greeting +:+ " Button clicked at " +:+ fmt now).
Proof.
  intros Hr.
  destruct (ready_run fmt host b o n0 (evs ++ [Click b now]) Hr)
    as (_ & Hc & _).
  rewrite last_activation_snoc in Hc. eexists. split; [done|].
  exists "<p>", "</p>". unfold markup. by rewrite !append_assoc.
Qed.

Lemma greeting_then_label_then_time_witness :
  ∃ c, content (run toLocaleTimeString_enUS
                  (DOMContentLoaded 0 ::
                   [] ++ [Click button_ref (at_time 0 14 30 0)])
                  (boot demo)).1 output_ref = Some c ∧
       Str.contains c
         (greeting +:+ " Button clicked at "
            +:+ toLocaleTimeString_enUS (at_time 0 14 30 0)).
Proof. apply greeting_then_label_then_time. sample_page. Defined.

(** C3 as stated fails: in the message written at 14:30:00 the greeting is
    not immediately followed by the time string. *)
Lemma greeting_not_directly_followed_by_time :
  ∃ c, content (run toLocaleTimeString_enUS
                  [DOMContentLoaded 0; Click button_ref (at_time 0 14 30 0)]
                  (boot demo)).1 output_ref = Some c ∧
       Str.contains c greeting ∧
       ¬ Str.contains c
           (greeting +:+ toLocaleTimeString_enUS (at_time 0 14 30 0)).
Proof.
  eexists. split; [vm_compute; reflexivity|]. split.
  - apply includes_spec. vm_compute. reflexivity.
  - apply not_contains. vm_compute. reflexivity.
Qed.

(** C4: for every N >= 1, after N activations the display target holds
    exactly the content produced by the N-th activation, the same content
    that this activation alone would leave; nothing of earlier activations
    accumulates. *)
Theorem last_click_wins
    (fmt : Z → string) (host : Page) (b o : ref) (n0 : Z)
    (N : nat) (ts : list Z) :
  ready host b o → (1 ≤ N)%nat → length ts = N →
  ∃ t, last ts = Some t ∧
       content (run fmt (DOMContentLoaded n0 :: (Click b <$> ts))
                  (boot host)).1 o = Some (markup fmt t) ∧
       content (run fmt (DOMContentLoaded n0 :: (Click b <$> ts))
                  (boot host)).1 o
       = content (run fmt [DOMContentLoaded n0; Click b t] (boot host)).1 o.
Proof.
  intros Hr HN Hlen.
  destruct (last ts) as [t|] eqn:Hlast.
  2: { apply last_None in Hlast. subst ts. cbn in Hlen. lia. }
  exists t. split; [done|].
  destruct (ready_run fmt host b o n0 (Click b <$> ts) Hr) as (_ & Hc & _).
  destruct (ready_run fmt host b o n0 [Click b t] Hr) as (_ & Hc1 & _).
  rewrite last_activation_clicks, Hlast in Hc.
  cbn [last_activation activation] in Hc1. rewrite decide_True in Hc1 by done.
  split; congruence.
Qed.

Lemma last_click_wins_witness :
  ∃ t, last [at_time 0 9 15 0; at_time 0 14 30 0; at_time 0 14 30 1] = Some t ∧
       content (run toLocaleTimeString_enUS
                  (DOMContentLoaded 0 ::
                   (Click button_ref <$>
                      [at_time 0 9 15 0; at_time 0 14 30 0; at_time 0 14 30 1]))
                  (boot demo)).1 output_ref
       = Some (markup toLocaleTimeString_enUS t) ∧
       content (run toLocaleTimeString_enUS
                  (DOMContentLoaded 0 ::
                   (Click button_ref <$>
                      [at_time 0 9 15 0; at_time 0 14 30 0; at_time 0 14 30 1]))
                  (boot demo)).1 output_ref
       = content (run toLocaleTimeString_enUS
                    [DOMContentLoaded 0; Click button_ref t] (boot demo)).1
                 output_ref.
Proof.
  apply (last_click_wins toLocaleTimeString_enUS demo button_ref output_ref 0
           3%nat); [sample_page | lia | reflexivity].
Defined.

(** C5: if either required element is absent at initialization, the load
    listener returns without an error and attaches nothing: in every later
    run the only listener ever invoked is the load listener itself, no
    invocation throws, and no element carries a listener. *)
Theorem missing_element_is_inert
    (fmt : Z → string) (host : Page) (n0 : Z) (evs : list Event) :
  fresh host → loaded host = false →
  element_by_id host "mainButton" = VNull
    ∨ element_by_id host "output" = VNull →
  (run fmt (DOMContentLoaded n0 :: evs) (boot host)).2
    = [(LoadedListener, None)] ∧
  pristine (run fmt (DOMContentLoaded n0 :: evs) (boot host)).1 ∧
  state (run fmt (DOMContentLoaded n0 :: evs) (boot host)).1 = Unbound.
Proof.
  intros Hf Hl Habs. rewrite run_cons.
  rewrite (idle_load_inert fmt (boot host) n0) by auto using boot_idle.
  cbn [fst snd]. destruct Hf as [_ Hp].
  rewrite run_inert by done. cbn [fst snd].
  split; [done|]. split; [done|]. by apply pristine_unbound.
Qed.

Lemma missing_element_is_inert_witness :
  (run toLocaleTimeString_enUS
     (DOMContentLoaded 0 :: [Click button_ref (at_time 0 14 30 0)])
     (boot demo_no_output)).2 = [(LoadedListener, None)] ∧
  pristine (run toLocaleTimeString_enUS
     (DOMContentLoaded 0 :: [Click button_ref (at_time 0 14 30 0)])
     (boot demo_no_output)).1 ∧
  state (run toLocaleTimeString_enUS
     (DOMContentLoaded 0 :: [Click button_ref (at_time 0 14 30 0)])
     (boot demo_no_output)).1 = Unbound.
Proof. apply missing_element_is_inert; sample_page. Defined.

(** C6, as amended: two activations whose clock readings differ, whole
    days set aside, by at least one second and by at most a day less one
    second write strings with different time substrings, for a time format
    that shows different seconds of the day differently.  Only the pairs
    whose difference lies within a second of a whole number of days are
    left out. *)
Theorem times_apart_modulo_a_day_differ
    (fmt : Z → string) (host : Page) (b o : ref) (n0 t1 t2 : Z)
    (evs1 evs2 : list Event) :
  ready host b o → second_resolution fmt →
  msPerSecond ≤ (t2 - t1) mod msPerDay ≤ msPerDay - msPerSecond →
  content (run fmt (DOMContentLoaded n0 :: evs1 ++ [Click b t1])
             (boot host)).1 o
    = Some (paragraph (prefix_text +:+ fmt t1)) ∧
  content (run fmt (DOMContentLoaded n0 :: evs2 ++ [Click b t2])
             (boot host)).1 o
    = Some (paragraph (prefix_text +:+ fmt t2)) ∧
  fmt t1 ≠ fmt t2 ∧
  content (run fmt (DOMContentLoaded n0 :: evs1 ++ [Click b t1])
             (boot host)).1 o
    ≠ content (run fmt (DOMContentLoaded n0 :: evs2 ++ [Click b t2])
                 (boot host)).1 o.
Proof.
  intros Hr Hres Hd.
  destruct (ready_run fmt host b o n0 (evs1 ++ [Click b t1]) Hr)
    as (_ & Hc1 & _).
  destruct (ready_run fmt host b o n0 (evs2 ++ [Click b t2]) Hr)
    as (_ & Hc2 & _).
  rewrite last_activation_snoc in Hc1, Hc2.
  rewrite Hc1, Hc2, !markup_paragraph.
  assert (Hne : fmt t1 ≠ fmt t2) by by apply Hres, seconds_apart_mod.
  split; [done|]. split; [done|]. split; [done|].
  intros H. apply Hne. apply (inj Some) in H. unfold paragraph in H.
  apply (inj (String.append "<p>")) in H.
  apply append_inj_r in H. by apply (inj (String.append prefix_text)) in H.
Qed.

Lemma times_apart_modulo_a_day_differ_witness :
  toLocaleTimeString_enUS (at_time 0 14 30 0)
    ≠ toLocaleTimeString_enUS (at_time 1 15 30 0) ∧
  content (run toLocaleTimeString_enUS
             (DOMContentLoaded 0 :: [] ++ [Click button_ref (at_time 0 14 30 0)])
             (boot demo)).1 output_ref
    ≠ content (run toLocaleTimeString_enUS
                 (DOMContentLoaded 0 ::
                  [] ++ [Click button_ref (at_time 1 15 30 0)])
                 (boot demo)).1 output_ref.
Proof.
  apply (times_apart_modulo_a_day_differ toLocaleTimeString_enUS demo
           button_ref output_ref 0 (at_time 0 14 30 0) (at_time 1 15 30 0)
           [] []);
    [sample_page | exact enUS_second_resolution | vm_compute; split; discriminate].
Defined.

(** C6 as stated fails: the format shows seconds, the two activations are a
    day apart, and they write the same string. *)
Lemma same_time_next_day :
  second_resolution toLocaleTimeString_enUS ∧
  msPerSecond ≤ at_time 1 14 30 0 - at_time 0 14 30 0 ∧
  toLocaleTimeString_enUS (at_time 0 14 30 0)
    = toLocaleTimeString_enUS (at_time 1 14 30 0) ∧
  content (run toLocaleTimeString_enUS
             [DOMContentLoaded 0; Click button_ref (at_time 0 14 30 0)]
             (boot demo)).1 output_ref
    = content (run toLocaleTimeString_enUS
                 [DOMContentLoaded 0; Click button_ref (at_time 0 14 30 0);
                  Click button_ref (at_time 1 14 30 0)]
                 (boot demo)).1 output_ref.
Proof.
  split; [exact enUS_second_resolution|].
  split; [vm_compute; discriminate|].
  split; vm_compute; reflexivity.
Qed.

(** C7: initialization never throws and in every case logs exactly one
    message, the startup notice; when a required element is absent it does
    nothing else: the page is unchanged apart from that one console line. *)
Theorem initialisation_logs_once (p : Page) :
  ∃ p', loadedListener p = Return tt p' ∧
        console p' = console p ++ [notice] ∧
        (element_by_id p "mainButton" = VNull
           ∨ element_by_id p "output" = VNull →
         p' = mkPage (heap p) (tree p) (documentListeners p)
                     (console p ++ [notice]) (loaded p)).
Proof.
  destruct (element_by_id p "mainButton") as [|b] eqn:Hb.
  { rewrite loadedListener_inert by auto. eauto. }
  destruct (element_by_id p "output") as [|o] eqn:Ho.
  { rewrite loadedListener_inert by auto. eauto. }
  destruct (loadedListener_binds p b o Hb Ho) as (e & He & ->).
  eexists. split; [done|]. split; [done|]. by intros [? | ?].
Qed.

Lemma initialisation_logs_once_witness :
  ∃ p', loadedListener demo_no_output = Return tt p' ∧
        console p' = console demo_no_output ++ [notice] ∧
        p' = mkPage (heap demo_no_output) (tree demo_no_output)
                    (documentListeners demo_no_output)
                    (console demo_no_output ++ [notice])
                    (loaded demo_no_output).
Proof.
  destruct (initialisation_logs_once demo_no_output) as (p' & E & Hk & Hp).
  exists p'. split; [exact E|]. split; [exact Hk|].
  apply Hp. right. reflexivity.
Defined.

(** C8: the component has two states, Unbound and Bound; it starts
    Unbound; it becomes Bound only on the load event of a page that is
    still loading and has both elements; a Bound page stays Bound under
    every event; so a run binds at most once. *)
Theorem binding_state_machine (fmt : Z → string) (host : Page) :
  fresh host →
  (∀ s : State, s = Unbound ∨ s = Bound) ∧
  state (boot host) = Unbound ∧
  (∀ p ev, reachable fmt host p →
     state p = Unbound → state (step fmt p ev).1 = Bound →
     (∃ now, ev = DOMContentLoaded now) ∧ loaded p = false ∧
     element_by_id p "mainButton" ≠ VNull ∧
     element_by_id p "output" ≠ VNull) ∧
  (∀ p ev, reachable fmt host p →
     state p = Bound → state (step fmt p ev).1 = Bound) ∧
  (∀ evs, (bindings fmt evs (boot host) ≤ 1)%nat).
Proof.
  intros Hf. split; [by intros []; auto|].
  split; [apply pristine_unbound, boot_idle, Hf|].
  split; [|split].
  - intros p ev Hr Hu Hb.
    destruct (reachable_inv fmt host p Hf Hr) as [Hi | (b & o & Hw)].
    2: { rewrite (wired_bound b o p Hw) in Hu. discriminate. }
    destruct (idle_step fmt p ev Hi)
      as [(Hi' & _) | (b & o & n0 & -> & Hl & Hmb & Hout & _)].
    + rewrite (pristine_unbound _ (proj1 Hi')) in Hb. discriminate.
    + split; [eauto|]. split; [done|]. rewrite Hmb, Hout. done.
  - intros p ev Hr Hb.
    destruct (reachable_inv fmt host p Hf Hr) as [Hi | (b & o & Hw)].
    + rewrite (pristine_unbound _ (proj1 Hi)) in Hb. discriminate.
    + apply (wired_bound b o), wired_step, Hw.
  - intros evs. apply bindings_idle, boot_idle, Hf.
Qed.

Lemma binding_state_machine_witness :
  state (boot demo) = Unbound ∧
  state (step toLocaleTimeString_enUS (boot demo) (DOMContentLoaded 0)).1
    = Bound ∧
  (bindings toLocaleTimeString_enUS
     [Click button_ref 5; DOMContentLoaded 0; Click button_ref 7;
      DOMContentLoaded 9] (boot demo) ≤ 1)%nat.
Proof.
  destruct (binding_state_machine toLocaleTimeString_enUS demo)
    as (_ & H0 & _ & _ & Hn); [sample_page|].
  split; [exact H0|]. split; [vm_compute; reflexivity | apply Hn].
Defined.

(** C9: nothing is retained between activations: what an activation
    writes depends on its clock reading alone, so two activations at the
    same reading write the same content whatever events came before each. *)
Theorem activation_depends_on_clock_only
    (fmt : Z → string) (host1 host2 : Page) (b1 o1 b2 o2 : ref)
    (n1 n2 t : Z) (evs1 evs2 : list Event) :
  ready host1 b1 o1 → ready host2 b2 o2 →
  content (run fmt (DOMContentLoaded n1 :: evs1 ++ [Click b1 t])
             (boot host1)).1 o1
    = Some (markup fmt t) ∧
  content (run fmt (DOMContentLoaded n1 :: evs1 ++ [Click b1 t])
             (boot host1)).1 o1
    = content (run fmt (DOMContentLoaded n2 :: evs2 ++ [Click b2 t])
                 (boot host2)).1 o2.
Proof.
  intros Hr1 Hr2.
  destruct (ready_run fmt host1 b1 o1 n1 (evs1 ++ [Click b1 t]) Hr1)
    as (_ & Hc1 & _).
  destruct (ready_run fmt host2 b2 o2 n2 (evs2 ++ [Click b2 t]) Hr2)
    as (_ & Hc2 & _).
  rewrite last_activation_snoc in Hc1, Hc2. split; congruence.
Qed.

Lemma activation_depends_on_clock_only_witness :
  content (run toLocaleTimeString_enUS
             (DOMContentLoaded 0 :: [] ++ [Click button_ref (at_time 0 14 30 0)])
             (boot demo)).1 output_ref
    = Some (markup toLocaleTimeString_enUS (at_time 0 14 30 0)) ∧
  content (run toLocaleTimeString_enUS
             (DOMContentLoaded 0 :: [] ++ [Click button_ref (at_time 0 14 30 0)])
             (boot demo)).1 output_ref
    = content (run toLocaleTimeString_enUS
                 (DOMContentLoaded 3 ::
                  [Click button_ref (at_time 0 9 15 0);
                   Click output_ref (at_time 0 9 15 1);
                   Click button_ref (at_time 0 9 15 2)]
                  ++ [Click button_ref (at_time 0 14 30 0)])
                 (boot demo)).1 output_ref.
Proof.
  apply (activation_depends_on_clock_only toLocaleTimeString_enUS demo demo
           button_ref output_ref button_ref output_ref); sample_page.
Defined.

(** C10: initialization writes to no element: with both elements present,
    the load event binds the listener and leaves every element's content
    as the host had it, and the content stays so as long as the control is
    not activated. *)
Theorem initialisation_leaves_content
    (fmt : Z → string) (host : Page) (b o : ref) (n0 : Z) :
  ready host b o →
  state (step fmt (boot host) (DOMContentLoaded n0)).1 = Bound ∧
  (∀ r, content (step fmt (boot host) (DOMContentLoaded n0)).1 r
        = content host r) ∧
  (∀ evs r, last_activation b evs = None →
     content (run fmt (DOMContentLoaded n0 :: evs) (boot host)).1 r
     = content host r).
Proof.
  intros Hr. destruct (ready_load fmt host b o n0 Hr) as (p1 & E & Hw & Hc & _).
  rewrite E. cbn [fst]. split; [by apply (wired_bound b o)|]. split; [done|].
  intros evs r Hnone.
  destruct (ready_run fmt host b o n0 evs Hr) as (_ & Hco & Hoth & _).
  rewrite Hnone in Hco. destruct (decide (r = o)) as [->|Hne]; auto.
Qed.

Lemma initialisation_leaves_content_witness :
  state (step toLocaleTimeString_enUS (boot demo) (DOMContentLoaded 0)).1
    = Bound ∧
  content (step toLocaleTimeString_enUS (boot demo) (DOMContentLoaded 0)).1
          output_ref = Some EmptyString ∧
  content (run toLocaleTimeString_enUS
             (DOMContentLoaded 0 :: [Click output_ref 5; DOMContentLoaded 9])
             (boot demo)).1 button_ref = Some "Click Me".
Proof.
  destruct (initialisation_leaves_content toLocaleTimeString_enUS demo
              button_ref output_ref 0) as (Hs & Hc & Hrun); [sample_page|].
  split; [exact Hs|]. split; [apply Hc|].
  apply (Hrun [Click output_ref 5; DOMContentLoaded 9]). reflexivity.
Defined.

(** * More properties of the script *)

Module LifecycleFacts.
Import Lifecycle.

Section WithFormatter.

Variable fmt : Z → string.

Lemma run_app_log (evs1 evs2 : list Event) (p : Page) :
  run fmt (evs1 ++ evs2) p =
  ((run fmt evs2 (run fmt evs1 p).1).1,
   (run fmt evs1 p).2 ++ (run fmt evs2 (run fmt evs1 p).1).2).
Proof.
  revert p. induction evs1 as [|ev rest IH]; intros p.
  - cbn. by destruct (run fmt evs2 p).
  - cbn [app]. rewrite !run_cons, IH. cbn [fst snd]. by rewrite app_assoc.
Qed.

Lemma run_clicks_pristine (pre : list Event) (p : Page) :
  pristine p → forallb is_click pre = true → run fmt pre p = (p, []).
Proof.
  intros Hp. induction pre as [|ev rest IH]; [done|].
  cbn [forallb]. intros [Hc Hrest]%andb_true_iff.
  destruct ev as [now | r now]; [done|].
  rewrite run_cons, pristine_click by done. cbn [fst snd]. by rewrite IH.
Qed.

Lemma run_wired_log (b o : ref) (evs : list Event) (p : Page) :
  wired b o p →
  (run fmt evs p).2
  = (λ _, (ClickListener (VElement o), None)) <$> activations b evs.
Proof.
  revert p. induction evs as [|ev rest IH]; intros p Hw; [done|].
  rewrite run_cons. unfold activations. cbn [omap list_omap].
  fold (activations b rest).
  destruct (activation b ev) as [now|] eqn:Ha.
  - apply activation_click in Ha as ->.
    destruct (wired_click fmt b o p now Hw) as (p1 & -> & Hw1 & _).
    cbn [fst snd fmap list_fmap app]. f_equal. by apply IH.
  - rewrite (wired_other fmt b o p ev Hw Ha). cbn [fst snd app]. by apply IH.
Qed.

Lemma wired_reattach (b o : ref) (t : list ref) (p : Page) :
  wired b o p → wired b o (reattach t p).
Proof. done. Qed.

Lemma markup_inj (t1 t2 : Z) :
  markup fmt t1 = markup fmt t2 → fmt t1 = fmt t2.
Proof.
  unfold markup. intros H. apply append_inj_r in H.
  by apply (inj (String.append _)) in H.
Qed.

(** *** Nothing is ever taken away *)

Lemma extends_same_heap (p q : Page) :
  heap q = heap p → documentListeners q = documentListeners p →
  (loaded p = true → loaded q = true) → extends p q.
Proof.
  intros Hh Hd Hl. split; [done|]. split; [done|]. intros r e He.
  exists e. by rewrite Hh.
Qed.

Lemma extends_refl (p : Page) : extends p p.
Proof. by apply extends_same_heap. Qed.

Lemma extends_trans (p q r : Page) : extends p q → extends q r → extends p r.
Proof.
  intros (Hd1 & Hl1 & H1) (Hd2 & Hl2 & H2). split; [congruence|].
  split; [auto|]. intros x e He.
  destruct (H1 x e He) as (e1 & He1 & Hid1 & Hp1).
  destruct (H2 x e1 He1) as (e2 & He2 & Hid2 & Hp2).
  exists e2. split; [done|]. split; [congruence|]. by etrans.
Qed.

Lemma extends_insert (p : Page) (r : ref) (e e' : Element) :
  heap p !! r = Some e → elemId e' = elemId e →
  listeners e `prefix_of` listeners e' →
  extends p (set_heap (<[r := e']> (heap p)) p).
Proof.
  intros He Hid Hpre. split; [done|]. split; [done|]. intros x ex Hx.
  cbn [set_heap heap]. destruct (decide (x = r)) as [->|Hne].
  - rewrite lookup_insert_eq. exists e'. by simplify_eq.
  - rewrite lookup_insert_ne by done. by exists ex.
Qed.

Lemma call_extends (cb : Callback) (now : Z) (p : Page) :
  extends p (page_of (call fmt cb now p)).
Proof.
  destruct cb as [|v]; cbn [call].
  - destruct (element_by_id p "mainButton") as [|b] eqn:Hb.
    { rewrite loadedListener_inert by auto. by apply extends_same_heap. }
    destruct (element_by_id p "output") as [|o] eqn:Ho.
    { rewrite loadedListener_inert by auto. by apply extends_same_heap. }
    destruct (loadedListener_binds p b o Hb Ho) as (e & He & ->).
    cbn [page_of]. split; [done|]. split; [done|]. intros x ex Hx.
    cbn [heap]. destruct (decide (x = b)) as [->|Hne].
    + rewrite lookup_insert_eq. eexists. split; [done|]. simplify_eq.
      split; [done|]. by apply prefix_app_r.
    + rewrite lookup_insert_ne by done. by exists ex.
  - unfold clickListener, set_innerHTML. destruct v as [|r].
    { apply extends_refl. }
    destruct (heap p !! r) as [e|] eqn:He; cbn [page_of].
    + by apply (extends_insert p r e).
    + apply extends_refl.
Qed.

Lemma invoke_extends (cbs : list Callback) (now : Z) (p : Page) :
  extends p (invoke fmt cbs now p).1.
Proof.
  revert p. induction cbs as [|cb rest IH]; intros p.
  { apply extends_refl. }
  cbn [invoke]. pose proof (IH (page_of (call fmt cb now p))) as H.
  destruct (invoke fmt rest now (page_of (call fmt cb now p))) as [p' log].
  cbn [fst] in *. eapply extends_trans; [apply call_extends | done].
Qed.

Lemma step_extends (p : Page) (ev : Event) : extends p (step fmt p ev).1.
Proof.
  destruct ev as [now | r now]; unfold step.
  - destruct (loaded p) eqn:Hl; [apply extends_refl|].
    eapply extends_trans; [|apply invoke_extends].
    by apply extends_same_heap.
  - destruct (heap p !! r) as [e|]; [apply invoke_extends | apply extends_refl].
Qed.

(** *** The script evaluated several times *)

Lemma boot_n_fields (k : nat) (host : Page) :
  boot_n k host
  = mkPage (heap host) (tree host)
      (documentListeners host
         ++ replicate k ("DOMContentLoaded", LoadedListener))
      (console host) (loaded host).
Proof.
  induction k as [|k IH].
  - cbn. rewrite app_nil_r. by destruct host.
  - change (boot_n (S k) host) with (boot (boot_n k host)). rewrite IH.
    rewrite replicate_S_end, app_assoc. done.
Qed.

Lemma registered_replicate (k : nat) (type : string) (cb : Callback) :
  registered type (replicate k (type, cb)) = replicate k cb.
Proof.
  unfold registered. induction k as [|k IH]; [done|].
  cbn [replicate]. rewrite filter_cons_True by done. cbn [fmap list_fmap snd].
  by f_equal.
Qed.

Lemma first_with_id_insert
    (h : gmap ref Element) (t : list ref) (i : string)
    (b : ref) (e e' : Element) :
  h !! b = Some e → elemId e' = elemId e →
  first_with_id (<[b := e']> h) t i = first_with_id h t i.
Proof.
  intros He Hid. unfold first_with_id.
  assert (Hsame : ∀ r, has_id (<[b := e']> h) i r = has_id h i r).
  { intros r. unfold has_id. destruct (decide (r = b)) as [->|Hne].
    - by rewrite lookup_insert_eq, He, Hid.
    - by rewrite lookup_insert_ne. }
  induction t as [|r t IH]; [done|]. cbn [find]. rewrite Hsame.
  destruct (has_id h i r); [done|]. apply IH.
Qed.

Lemma invoke_loaded_n (b o : ref) (now : Z) (k : nat) :
  ∀ (j : nat) (p : Page),
    element_by_id p "mainButton" = VElement b →
    element_by_id p "output" = VElement o →
    wired_n j b o p →
    ∃ p', invoke fmt (replicate k LoadedListener) now p
            = (p', replicate k (LoadedListener, None)) ∧
          wired_n (j + k) b o p' ∧
          console p' = console p ++ replicate k notice.
Proof.
  induction k as [|k IH]; intros j p Hb Ho Hw.
  { exists p. rewrite Nat.add_0_r, app_nil_r. done. }
  cbn [replicate invoke call].
  destruct (loadedListener_binds p b o Hb Ho) as (e & He & ->).
  cbn [page_of error_of].
  destruct Hw as (Hl & Hso & (e0 & He0 & Hreg) & Hoth).
  assert (e0 = e) as -> by congruence.
  match goal with |- context [invoke fmt _ now ?q] => set (p1 := q) end.
  destruct (IH (S j) p1) as (p' & E & Hw' & Hk).
  - unfold element_by_id, p1. cbn [heap tree].
    by rewrite (first_with_id_insert _ _ _ b e).
  - unfold element_by_id, p1. cbn [heap tree].
    by rewrite (first_with_id_insert _ _ _ b e).
  - unfold wired_n, p1. cbn [heap loaded]. split; [done|]. split; [|split].
    + apply lookup_insert_is_Some. destruct (decide (b = o)); eauto.
    + rewrite lookup_insert_eq. eexists. split; [done|]. cbn [listeners].
      rewrite registered_app, Hreg. change (registered _ [_]) with
        [ClickListener (VElement o)]. by rewrite replicate_S_end.
    + intros r e' Hr. rewrite lookup_insert_ne by done. by apply Hoth.
  - exists p'. rewrite E. split; [done|]. split.
    + by replace (j + S k)%nat with (S j + k)%nat by lia.
    + rewrite Hk. unfold p1. cbn [console]. by rewrite <- app_assoc.
Qed.

Lemma invoke_clicks_n (b o : ref) (now : Z) (k m : nat) :
  ∀ p : Page,
    wired_n k b o p →
    ∃ p', invoke fmt (replicate m (ClickListener (VElement o))) now p
            = (p', replicate m (ClickListener (VElement o), None)) ∧
          wired_n k b o p' ∧
          console p' = console p.
Proof.
  induction m as [|m IH]; intros p Hw; [by exists p|].
  cbn [replicate invoke call]. unfold clickListener, set_innerHTML.
  destruct Hw as (Hl & [eo Ho] & (eb & Hb & Hreg) & Hoth). rewrite Ho.
  cbn [page_of error_of].
  match goal with |- context [invoke fmt _ now ?q] => set (p1 := q) end.
  destruct (IH p1) as (p' & E & Hw' & Hk).
  - unfold wired_n, p1, set_heap. cbn [heap loaded].
    split; [done|]. split; [|split].
    + rewrite lookup_insert_eq. eauto.
    + destruct (decide (b = o)) as [->|Hne].
      * rewrite lookup_insert_eq. eexists. split; [done|].
        cbn [listeners]. congruence.
      * rewrite lookup_insert_ne by done. eauto.
    + intros r e Hr. destruct (decide (r = o)) as [->|Hne].
      * rewrite lookup_insert_eq. intros [= <-]. cbn [listeners]. eauto.
      * rewrite lookup_insert_ne by done. eauto.
  - exists p'. rewrite E. done.
Qed.

Lemma run_wired_n (b o : ref) (k : nat) (evs : list Event) :
  ∀ p : Page,
    wired_n k b o p →
    (run fmt evs p).2
    = (activations b evs
         ≫= λ _, replicate k (ClickListener (VElement o), None)) ∧
    console (run fmt evs p).1 = console p.
Proof.
  induction evs as [|ev rest IH]; intros p Hw; [done|].
  rewrite run_cons. unfold activations. cbn [omap list_omap].
  fold (activations b rest). cbn [fst snd].
  destruct (activation b ev) as [now|] eqn:Ha.
  - apply activation_click in Ha as ->.
    destruct (invoke_clicks_n b o now k k p Hw) as (p1 & E & Hw1 & Hk).
    assert (Hs : step fmt p (Click b now)
                 = (p1, replicate k (ClickListener (VElement o), None))).
    { unfold step. destruct Hw as (_ & _ & (eb & -> & ->) & _). done. }
    rewrite Hs. cbn [fst snd]. destruct (IH p1 Hw1) as [-> ->].
    by rewrite bind_cons.
  - assert (Hs : step fmt p ev = (p, [])).
    { destruct Hw as (Hl & _ & _ & Hoth).
      destruct ev as [now | r now]; unfold step.
      - by rewrite Hl.
      - cbn [activation] in Ha. case_decide; [done|].
        destruct (heap p !! r) as [e|] eqn:He; [|done].
        by rewrite (Hoth r e). }
    rewrite Hs. cbn [fst snd app]. by apply IH.
Qed.

End WithFormatter.

End LifecycleFacts.

Import Lifecycle LifecycleFacts.

(** X1: a script evaluated on a page that has already loaded never runs
    its load listener: whatever events follow, nothing is invoked, nothing
    is logged, the component stays Unbound and no content changes, even
    with both elements present. *)
Theorem late_script_never_binds
    (fmt : Z → string) (host : Page) (evs : list Event) :
  fresh host → loaded host = true →
  (run fmt evs (boot host)).2 = [] ∧
  console (run fmt evs (boot host)).1 = console host ∧
  state (run fmt evs (boot host)).1 = Unbound ∧
  (∀ r, content (run fmt evs (boot host)).1 r = content host r).
Proof.
  intros Hf Hl. destruct (boot_idle host Hf) as [Hp _].
  rewrite (run_inert fmt evs (boot host)) by done. cbn [fst snd].
  split; [done|]. split; [done|]. split; [|done]. by apply pristine_unbound.
Qed.

Lemma late_script_never_binds_witness :
  (run toLocaleTimeString_enUS
     [DOMContentLoaded 0; Click button_ref (at_time 0 14 30 0)]
     (boot demo_late)).2 = [] ∧
  console (run toLocaleTimeString_enUS
     [DOMContentLoaded 0; Click button_ref (at_time 0 14 30 0)]
     (boot demo_late)).1 = console demo_late ∧
  state (run toLocaleTimeString_enUS
     [DOMContentLoaded 0; Click button_ref (at_time 0 14 30 0)]
     (boot demo_late)).1 = Unbound ∧
  (∀ r, content (run toLocaleTimeString_enUS
     [DOMContentLoaded 0; Click button_ref (at_time 0 14 30 0)]
     (boot demo_late)).1 r = content demo_late r).
Proof. apply late_script_never_binds; sample_page. Defined.

(** X2: clicks that arrive before the load event are lost: a run that
    starts with any number of clicks, on any elements, ends in the same
    page with the same invocation log as the run without them. *)
Theorem clicks_before_load_are_lost
    (fmt : Z → string) (host : Page) (pre evs : list Event) :
  fresh host → forallb is_click pre = true →
  run fmt (pre ++ evs) (boot host) = run fmt evs (boot host).
Proof.
  intros Hf Hpre. destruct (boot_idle host Hf) as [Hp _].
  rewrite run_app_log, (run_clicks_pristine fmt pre (boot host)) by done.
  cbn [fst snd app]. by destruct (run fmt evs (boot host)).
Qed.

Lemma clicks_before_load_are_lost_witness :
  run toLocaleTimeString_enUS
    ([Click button_ref (at_time 0 9 15 0); Click output_ref (at_time 0 9 15 1)]
     ++ [DOMContentLoaded 0; Click button_ref (at_time 0 14 30 0)])
    (boot demo)
  = run toLocaleTimeString_enUS
      [DOMContentLoaded 0; Click button_ref (at_time 0 14 30 0)] (boot demo).
Proof. apply clicks_before_load_are_lost; sample_page. Defined.

(** X3: with both elements present, the listeners invoked over a whole run
    are the load listener, once, and then the click listener once per
    activation of the control, in order; none of them throws, and the
    console gains the startup notice and nothing else. *)
Theorem one_invocation_per_activation
    (fmt : Z → string) (host : Page) (b o : ref) (n0 : Z)
    (evs : list Event) :
  ready host b o →
  (run fmt (DOMContentLoaded n0 :: evs) (boot host)).2
  = (LoadedListener, None)
      :: ((λ _, (ClickListener (VElement o), None)) <$> activations b evs) ∧
  console (run fmt (DOMContentLoaded n0 :: evs) (boot host)).1
  = console host ++ [notice].
Proof.
  intros Hr. split; [|by apply (ready_run fmt host b o n0 evs Hr)].
  destruct (ready_load fmt host b o n0 Hr) as (p1 & E & Hw & _).
  rewrite run_cons, E. cbn [fst snd app]. f_equal. by apply run_wired_log.
Qed.

Lemma one_invocation_per_activation_witness :
  (run toLocaleTimeString_enUS
     (DOMContentLoaded 0 ::
      [Click button_ref 5; Click output_ref 6; DOMContentLoaded 7;
       Click button_ref 8])
     (boot demo)).2
  = (LoadedListener, None)
      :: ((λ _, (ClickListener (VElement output_ref), None))
            <$> activations button_ref
                  [Click button_ref 5; Click output_ref 6; DOMContentLoaded 7;
                   Click button_ref 8]) ∧
  console (run toLocaleTimeString_enUS
     (DOMContentLoaded 0 ::
      [Click button_ref 5; Click output_ref 6; DOMContentLoaded 7;
       Click button_ref 8])
     (boot demo)).1
  = console demo ++ [notice].
Proof. apply one_invocation_per_activation. sample_page. Defined.

(** X4: the click listener writes to the node that the lookup found at
    load, not to whatever has the id later: once bound, however the
    document's attached nodes are changed afterwards (the output container
    detached, say), an activation still invokes the one listener, which
    returns normally and leaves its markup in the captured node. *)
Theorem activation_writes_to_captured_node
    (fmt : Z → string) (host : Page) (b o : ref) (n0 now : Z)
    (evs : list Event) (t : list ref) :
  ready host b o →
  ∃ p', step fmt
          (reattach t (run fmt (DOMContentLoaded n0 :: evs) (boot host)).1)
          (Click b now)
        = (p', [(ClickListener (VElement o), None)]) ∧
        content p' o = Some (markup fmt now).
Proof.
  intros Hr. destruct (ready_run fmt host b o n0 evs Hr) as (Hw & _).
  apply (wired_reattach b o t) in Hw.
  destruct (wired_click fmt b o _ now Hw) as (p' & E & _ & Hc & _).
  by exists p'.
Qed.

Lemma activation_writes_to_captured_node_witness :
  element_by_id
    (reattach [button_ref]
       (run toLocaleTimeString_enUS [DOMContentLoaded 0] (boot demo)).1)
    "output" = VNull ∧
  ∃ p', step toLocaleTimeString_enUS
          (reattach [button_ref]
             (run toLocaleTimeString_enUS (DOMContentLoaded 0 :: [])
                (boot demo)).1)
          (Click button_ref (at_time 0 14 30 0))
        = (p', [(ClickListener (VElement output_ref), None)]) ∧
        content p' output_ref
        = Some (markup toLocaleTimeString_enUS (at_time 0 14 30 0)).
Proof.
  split; [vm_compute; reflexivity|].
  apply activation_writes_to_captured_node. sample_page.
Defined.

(** X5: evaluating the script k times binds k click listeners: the load
    event then invokes the load listener k times and logs the startup
    notice k times, every activation invokes k click listeners, and no
    invocation throws. *)
Theorem script_evaluated_k_times
    (fmt : Z → string) (host : Page) (b o : ref) (n0 : Z) (k : nat)
    (evs : list Event) :
  ready host b o →
  (run fmt (DOMContentLoaded n0 :: evs) (boot_n k host)).2
  = replicate k (LoadedListener, None)
      ++ (activations b evs
            ≫= λ _, replicate k (ClickListener (VElement o), None)) ∧
  console (run fmt (DOMContentLoaded n0 :: evs) (boot_n k host)).1
  = console host ++ replicate k notice.
Proof.
  intros ((Hd & Hp) & Hl & Hb & Ho).
  destruct (element_by_id_found _ _ _ Hb) as (eb & Heb & _).
  destruct (element_by_id_found _ _ _ Ho) as (eo & Heo & _).
  assert (Hs : ∃ p1, step fmt (boot_n k host) (DOMContentLoaded n0)
                     = (p1, replicate k (LoadedListener, None)) ∧
                     wired_n k b o p1 ∧
                     console p1 = console host ++ replicate k notice).
  { rewrite boot_n_fields, Hd. unfold step.
    cbn [loaded documentListeners app]. rewrite Hl, registered_replicate.
    match goal with |- context [invoke fmt _ n0 ?q] => set (p0 := q) end.
    destruct (invoke_loaded_n fmt b o n0 k 0 p0) as (p1 & E & Hw & Hk);
      [done | done | | by exists p1].
    unfold wired_n, p0. cbn [set_loaded heap loaded].
    split; [done|]. split; [by eexists|]. split.
    - exists eb. split; [done|]. by rewrite (pristine_lookup host b eb Hp Heb).
    - intros r e _ He. exact (pristine_lookup host r e Hp He). }
  destruct Hs as (p1 & Hs & Hw & Hk).
  rewrite run_cons, Hs. cbn [fst snd].
  destruct (run_wired_n fmt b o k evs p1 Hw) as [-> ->]. by rewrite Hk.
Qed.

Lemma script_evaluated_k_times_witness :
  (run toLocaleTimeString_enUS
     (DOMContentLoaded 0 :: [Click button_ref 5; Click output_ref 6])
     (boot_n 2 demo)).2
  = replicate 2 (LoadedListener, None)
      ++ (activations button_ref [Click button_ref 5; Click output_ref 6]
            ≫= λ _, replicate 2 (ClickListener (VElement output_ref), None)) ∧
  console (run toLocaleTimeString_enUS
     (DOMContentLoaded 0 :: [Click button_ref 5; Click output_ref 6])
     (boot_n 2 demo)).1
  = console demo ++ replicate 2 notice.
Proof. apply script_evaluated_k_times. sample_page. Defined.

(** X6: the content an activation leaves determines the formatted time and
    nothing more: two activations leave the same content exactly when the
    host formats their clock readings to the same string. *)
Theorem same_content_iff_same_time_string
    (fmt : Z → string) (host : Page) (b o : ref) (n0 t1 t2 : Z)
    (evs1 evs2 : list Event) :
  ready host b o →
  content (run fmt (DOMContentLoaded n0 :: evs1 ++ [Click b t1])
             (boot host)).1 o
  = content (run fmt (DOMContentLoaded n0 :: evs2 ++ [Click b t2])
               (boot host)).1 o
  ↔ fmt t1 = fmt t2.
Proof.
  intros Hr.
  destruct (ready_run fmt host b o n0 (evs1 ++ [Click b t1]) Hr)
    as (_ & -> & _).
  destruct (ready_run fmt host b o n0 (evs2 ++ [Click b t2]) Hr)
    as (_ & -> & _).
  rewrite !last_activation_snoc. split.
  - intros H. apply (inj Some) in H. by apply (markup_inj fmt).
  - intros H. unfold markup. by rewrite H.
Qed.

Lemma same_content_iff_same_time_string_witness :
  content (run toLocaleTimeString_enUS
             (DOMContentLoaded 0 :: [] ++ [Click button_ref (at_time 0 14 30 0)])
             (boot demo)).1 output_ref
  = content (run toLocaleTimeString_enUS
               (DOMContentLoaded 0 ::
                [] ++ [Click button_ref (at_time 0 14 30 0 + 500)])
               (boot demo)).1 output_ref
  ↔ toLocaleTimeString_enUS (at_time 0 14 30 0)
    = toLocaleTimeString_enUS (at_time 0 14 30 0 + 500).
Proof. apply same_content_iff_same_time_string. sample_page. Defined.

(** X7: the script takes nothing away.  From any page, after any run of
    events, every node is still in the store with the id it had and with a
    listener list that extends the one it had; the document's listeners
    are the same; a loaded page is still loaded. *)
Theorem nothing_is_ever_removed
    (fmt : Z → string) (evs : list Event) (p : Page) :
  extends p (run fmt evs p).1.
Proof.
  revert p. induction evs as [|ev rest IH]; intros p.
  { apply extends_refl. }
  rewrite run_cons. cbn [fst].
  eapply extends_trans; [apply step_extends | apply IH].
Qed.

Lemma nothing_is_ever_removed_witness :
  ∃ e', heap (run toLocaleTimeString_enUS
                [DOMContentLoaded 0; Click button_ref 5] (boot demo)).1
          !! button_ref = Some e' ∧
        elemId e' = Some "mainButton" ∧
        [] `prefix_of` listeners e'.
Proof.
  destruct (nothing_is_ever_removed toLocaleTimeString_enUS
              [DOMContentLoaded 0; Click button_ref 5] (boot demo))
    as (_ & _ & H).
  apply (H button_ref (mkElement (Some "mainButton") "Click Me" [])).
  reflexivity.
Defined.
